(** * Shallow embedding of go-imap's connection transport and LIST response

    Source: [src/responses/list.go], which holds two Go files:
    - package [responses] (lines 1-91): the LIST/LSUB response handler;
    - package [imap] (lines 93-348): connection states and the [Conn]
      transport (buffering, debug taps, flush aggregation, upgrade).

    Go maps ([map[string]bool]) are stdpp [gmap string bool], read with the
    Go zero value ([default false]); slices are lists; channels drained by a
    [range] loop are the list of values they deliver; [error] is
    [option Err] with [None] for [nil]. *)

From Stdlib Require Import ZArith.
From stdpp Require Import base gmap strings list sorting.

Open Scope string_scope.
Open Scope list_scope.

(** Go [error] values met by this code. [ErrUnhandled] is the sentinel of
    package [responses], [ErrShortWrite] is [io.ErrShortWrite]; every other error is an opaque message. *)
Inductive Err :=
| ErrUnhandled
| ErrShortWrite
| ErrMsg (msg : string).

#[global] Instance Err_eq_dec : EqDecision Err.
Proof. solve_decision. Defined.

(* ================================================================== *)
(** ** Package [responses]: the LIST response *)

Module Responses.

Definition listName : string := "LIST".
Definition lsubName : string := "LSUB".

(** [imap.MailboxInfo]: attributes, hierarchy delimiter, name. *)
Record MailboxInfo := mkMailboxInfo {
  Attributes : list string;
  Delimiter : string;
  MbName : string
}.

(** [type List struct]; the channel [Mailboxes] is the queue of records
    it holds (sent but not yet received). *)
Record List := mkList {
  Mailboxes : list MailboxInfo;
  Subscribed : bool;
  SpecialUse : bool
}.

(** [func (r *List) Name() string] *)
Definition Name (r : List) : string :=
  if Subscribed r then lsubName else listName.

Section Handle.
  (** [imap.Resp], the field type, [imap.ParseNamedResp] and
      [MailboxInfo.Parse] live outside [src/]; [Handle] is stated for
      every choice of them. *)
  Context {Resp Field : Type}.
  Variable ParseNamedResp : Resp -> option (string * list Field).
  Variable mboxParse : list Field -> MailboxInfo + string.

  (** [func (r *List) Handle(resp imap.Resp) error]; the send
      [r.Mailboxes <- mbox] appends [mbox] to the channel's queue. *)
Definition Handle (r : List) (resp : Resp) : option Err * List :=
    match ParseNamedResp resp with
    | Some (name, fields) =>
        if bool_decide (name = Name r) then
          match mboxParse fields with
          | inr msg => (Some (ErrMsg msg), r)
          | inl mbox =>
              (None, mkList (Mailboxes r ++ [mbox]) (Subscribed r) (SpecialUse r))
          end
        else (Some ErrUnhandled, r)
    | None => (Some ErrUnhandled, r)
    end.
End Handle.

(** Go's [hash[e]] on a [map[string]bool]: the zero value [false] when
    the key is absent. *)
Definition mget (m : gmap string bool) (k : string) : bool :=
  default false (m !! k).

(** Body of the loop of [removeDups], on [(nodups, encountered)]. *)
Definition removeDups_step (st : list string * gmap string bool) (element : string)
    : list string * gmap string bool :=
  let '(nodups, encountered) := st in
  if negb (mget encountered element)
  then (nodups ++ [element], <[element := true]> encountered)
  else (nodups, encountered).

(** [func removeDups(elements []string) (nodups []string)] *)
Definition removeDups (elements : list string) : list string :=
  fst (foldl removeDups_step ([], ∅) elements).

(** [func intersection(s1, s2 []string) (inter []string)] *)
Definition intersection (s1 s2 : list string) : list string :=
  let hash := foldl (fun h e => <[e := true]> h) (∅ : gmap string bool) s1 in
  let inter := foldl (fun acc e => if mget hash e then acc ++ [e] else acc) [] s2 in
  removeDups inter.

(** [var specialuse] *)
Definition specialuse : list string :=
  ["\ALL"; "\Archive"; "\Drafts"; "\Flagged"; "\Junk"; "\Sent"; "\Trash"; "\Important"].

Section WriteTo.
  (** [mbox.Format()] and [resp.WriteTo(w)] of the untagged response
      built from [respName] and the formatted mailbox are outside [src/];
      [WriteTo] is stated for every choice of them. A written line is the
      pair [(respName, Format mbox)]. *)
  Context {Line : Type}.
  Variable Format : MailboxInfo -> Line.
  Variable writeResp : string -> Line -> option Err.

  (** The [continue] guard of the loop. *)
Definition skipped (r : List) (mbox : MailboxInfo) : bool :=
    SpecialUse r && bool_decide (length (intersection (Attributes mbox) specialuse) = 0).

  (** The [for mbox := range r.Mailboxes] loop: the error returned and the
      lines handed to [resp.WriteTo], in order. *)
Fixpoint WriteTo_loop (r : List) (respName : string) (mbs : list MailboxInfo)
      : option Err * list (string * Line) :=
    match mbs with
    | [] => (None, [])
    | mbox :: rest =>
        if skipped r mbox then WriteTo_loop r respName rest
        else
          let line := (respName, Format mbox) in
          match writeResp respName (Format mbox) with
          | Some err => (Some err, [line])
          | None =>
              let '(res, out) := WriteTo_loop r respName rest in
              (res, line :: out)
          end
    end.

  (** [func (r *List) WriteTo(w *imap.Writer) error] *)
Definition WriteTo (r : List) : option Err * list (string * Line) :=
    WriteTo_loop r (Name r) (Mailboxes r).
End WriteTo.

End Responses.

(* ================================================================== *)
(** ** Package [imap]: connection states and the [Conn] transport *)

Module Imap.

(** [type ConnState int] and its constants; Go's [<<] binds tighter than
    [+], so [SelectedState] is [2 + 4]. *)
Definition ConnectingState : Z := 0.
Definition NotAuthenticatedState : Z := Z.shiftl 1 0.
Definition AuthenticatedState : Z := Z.shiftl 1 1.
Definition SelectedState : Z := AuthenticatedState + Z.shiftl 1 2.
Definition LogoutState : Z := Z.shiftl 1 3.
Definition ConnectedState : Z :=
  Z.lor (Z.lor NotAuthenticatedState AuthenticatedState) SelectedState.

(** A [net.Conn] value: its identity, whether its dynamic type implements
    [flusher], and what [LocalAddr()] / [RemoteAddr()] return ([None] for
    a nil [net.Addr]). *)
Record Stream := mkStream {
  sid : nat;
  sflusher : bool;
  localAddr : option string;
  remoteAddr : option string
}.

(** A debug sink ([io.Writer]) is named by a number. A [WriterWithFields]
    is named by a number and its [Writer()] result ([None] for nil). *)
Record FieldSink := mkFieldSink {
  fs_id : nat;
  fs_writer : option nat
}.

(** The dynamic type of [c.debug] when it is not nil: a plain [io.Writer],
    a [*debugWriter] (from [NewDebugWriter]) or a [*debugWithFields]
    (from [NewDebugWithFields]). *)
Inductive Debug :=
| DPlain (w : nat)
| DWriter (local remote : option nat)
| DWithFields (local remote : option FieldSink).

(** Where bytes go or come from: a stream or a debug sink. *)
Inductive Endpoint :=
| EStream (s : nat)
| ESink (k : nat).

(** The [io.Writer] [w] of [init]: [c.Conn] or
    [io.MultiWriter(c.Conn, localDebug)]. *)
Inductive WDst :=
| WStream (s : nat)
| WMulti (s : nat) (k : nat).

(** The [io.Reader] [r] of [init]: [c.Conn] or
    [io.TeeReader(c.Conn, remoteDebug)]. *)
Inductive RSrc :=
| RStream (s : nat)
| RTee (s : nat) (k : nat).

(** A [flusher]: the connection's [*bufio.Writer] [c.bw] (one object for
    the whole life of the connection, re-targeted by [Reset]) or a stream
    that implements [flusher]. *)
Inductive Flusher :=
| FBuf
| FStream (s : nat).

(** The dynamic value of [c.Writer.Writer]: the value [NewConn] was given
    (before [init] ran), [c.bw] itself, or the anonymous struct
    [struct{io.Writer; flusher}{c.bw, newMultiFlusher(fl...)}]. *)
Inductive WField :=
| WFUnset
| WFBuf
| WFStruct (fl : list Flusher).

(** State of the [c.waits] channel: open (receives block) or closed. *)
Inductive Gate := GOpen | GClosed.

(** [type Conn struct]: [c.br] and [c.bw] are recorded by what they are
    bound to ([None] while nil); [c.Reader.reader] is [c.br] once [init]
    has run and is not tracked apart. *)
Record Conn := mkConn {
  cConn : Stream;
  cBr : option RSrc;
  cBw : option WDst;
  cWriter : WField;
  cWaits : option Gate;
  cDebug : option Debug
}.

Definition set_cConn (s : Stream) (c : Conn) : Conn :=
  mkConn s (cBr c) (cBw c) (cWriter c) (cWaits c) (cDebug c).
Definition set_cWaits (g : option Gate) (c : Conn) : Conn :=
  mkConn (cConn c) (cBr c) (cBw c) (cWriter c) g (cDebug c).
Definition set_cDebug (d : option Debug) (c : Conn) : Conn :=
  mkConn (cConn c) (cBr c) (cBw c) (cWriter c) (cWaits c) d.

(** Observable effects, in order. *)
Inductive Event :=
| EvSetField (fs : nat) (key value : string)
| EvWriterCall (fs : nat)
| EvSetEmbedded (w : option nat)
| EvFlush (f : Flusher)
| EvUpgrader (s : nat)
| EvWrite (e : Endpoint) (p : list Byte.byte)
| EvRead (e : Endpoint).

(** [func (df *debugWithFields) withField(key, value string)] *)
Definition withField (local remote : option FieldSink) (key value : string)
    : list Event :=
  match local with Some fs => [EvSetField (fs_id fs) key value] | None => [] end ++
  match remote with Some fs => [EvSetField (fs_id fs) key value] | None => [] end.

(** The debug part of [init]: [localDebug], [remoteDebug], and the
    calls made on the way: [SetField] ([withField]), then [Writer()] on
    the local sink together with [localWriter]'s assignment
    [df.Writer = df.local.Writer()] ([EvSetEmbedded]), then [Writer()] on
    the remote sink. [localWriter()] / [remoteWriter()] return nil for a
    nil sink and its [Writer()] otherwise. *)
Definition debugSinks (s : Stream) (d : Debug) : option nat * option nat * list Event :=
  match d with
  | DPlain w => (Some w, Some w, [])
  | DWriter l r => (l, r, [])
  | DWithFields l r =>
      let ev1 := match localAddr s with Some a => withField l r "loc" a | None => [] end in
      let ev2 := match remoteAddr s with Some a => withField l r "rem" a | None => [] end in
      let ev3 := match l with
                 | Some fs => [EvWriterCall (fs_id fs); EvSetEmbedded (fs_writer fs)]
                 | None => []
                 end in
      let ev4 := match r with Some fs => [EvWriterCall (fs_id fs)] | None => [] end in
      (l ≫= fs_writer, r ≫= fs_writer, ev1 ++ ev2 ++ ev3 ++ ev4)
  end.

(** The reader, the writer and the events of the first half of [init]. *)
Definition tapWiring (c : Conn) : RSrc * WDst * list Event :=
  let s := sid (cConn c) in
  match cDebug c with
  | None => (RStream s, WStream s, [])
  | Some d =>
      let '(ld, rd, ev) := debugSinks (cConn c) d in
      (match rd with Some k => RTee s k | None => RStream s end,
       match ld with Some k => WMulti s k | None => WStream s end,
       ev)
  end.

(** [func (c *Conn) init()]: [bufio.NewReader]/[NewWriter] when nil,
    [Reset] otherwise (both bind the buffer to the new source or sink);
    [c.Writer.Writer] is set to [c.bw] only when [c.bw] was nil, and to
    the flushing struct when [c.Conn] implements [flusher]. *)
Definition init (c : Conn) : Conn * list Event :=
  let '(r, w, ev) := tapWiring c in
  let writer1 := match cBw c with None => WFBuf | Some _ => cWriter c end in
  let writer2 :=
    if sflusher (cConn c) then WFStruct [FBuf; FStream (sid (cConn c))] else writer1 in
  (mkConn (cConn c) (Some r) (Some w) writer2 (cWaits c) (cDebug c), ev).

(** [func NewConn(conn net.Conn, r *Reader, w *Writer) *Conn] *)
Definition NewConn (s : Stream) : Conn * list Event :=
  init (mkConn s None None WFUnset None None).

(** [func (c *Conn) SetDebug(w io.Writer)] *)
Definition SetDebug (d : option Debug) (c : Conn) : Conn * list Event :=
  init (set_cDebug d c).

Section Flush.
  (** What each flusher's [Flush()] returns at this point of the run. *)
  Variable fres : Flusher -> option Err.

  (** [func (mf *multiFlusher) Flush() error] *)
Fixpoint multiFlush (fl : list Flusher) : option Err * list Event :=
    match fl with
    | [] => (None, [])
    | f :: rest =>
        match fres f with
        | Some err => (Some err, [EvFlush f])
        | None => let '(res, ev) := multiFlush rest in (res, EvFlush f :: ev)
        end
    end.

  (** Modelled from the spec: [imap.Writer.Flush] (writer.go, not in
      [src/]), "flushes the buffered writer": it calls [Flush] on its
      [Writer] field when that value has a flush capability and returns
      nil otherwise. The value [NewConn] was given is never observed
      (every [NewConn] runs [init]) and is taken as having none. *)
Definition writerFlush (wf : WField) : option Err * list Event :=
    match wf with
    | WFUnset => (None, [])
    | WFBuf => (fres FBuf, [EvFlush FBuf])
    | WFStruct fl => multiFlush fl
    end.

  (** [func (c *Conn) Flush() error] *)
Definition Flush (c : Conn) : option Err * list Event :=
    let '(res, ev) := writerFlush (cWriter c) in
    match res with Some err => (Some err, ev) | None => (None, ev) end.

  (** [func (c *Conn) Upgrade(upgrader ConnUpgrader) error]; the deferred
      [close(c.waits)] closes the channel made just before. *)
Definition Upgrade (upgrader : Stream -> Stream + Err) (c : Conn)
      : option Err * Conn * list Event :=
    let '(ferr, fev) := Flush c in
    match ferr with
    | Some err => (Some err, c, fev)
    | None =>
        let c1 := set_cWaits (Some GOpen) c in
        let uev := fev ++ [EvUpgrader (sid (cConn c))] in
        match upgrader (cConn c) with
        | inr err => (Some err, set_cWaits (Some GClosed) c1, uev)
        | inl upgraded =>
            let '(c2, iev) := init (set_cConn upgraded c1) in
            (None, set_cWaits (Some GClosed) c2, uev ++ iev)
        end
    end.
End Flush.

(** [func (c *Conn) Wait()]: whether the receive [<-c.waits] blocks. *)
Definition Wait_blocks (c : Conn) : bool :=
  match cWaits c with Some GOpen => true | _ => false end.

Section Io.
  (** What [Write(p)] on an endpoint returns, and what [Read] on a stream
      fills in (the bytes) and returns (the error). *)
  Variable wo : Endpoint -> list Byte.byte -> nat * option Err.
  Variable ro : Endpoint -> list Byte.byte * option Err.

  (** [multiWriter.Write] of Go's [io] package. *)
Fixpoint multiWrite (ws : list Endpoint) (p : list Byte.byte)
      : (nat * option Err) * list Event :=
    match ws with
    | [] => ((length p, None), [])
    | w :: rest =>
        let '(n, err) := wo w p in
        match err with
        | Some e => ((n, Some e), [EvWrite w p])
        | None =>
            if negb (Nat.eqb n (length p)) then ((n, Some ErrShortWrite), [EvWrite w p])
            else let '(res, ev) := multiWrite rest p in (res, EvWrite w p :: ev)
        end
    end.

  (** [w.Write(p)] for the writer [w] that [init] hands to [c.bw]. *)
Definition dstWrite (w : WDst) (p : list Byte.byte) : (nat * option Err) * list Event :=
    match w with
    | WStream s => (wo (EStream s) p, [EvWrite (EStream s) p])
    | WMulti s k => multiWrite [EStream s; ESink k] p
    end.

  (** [r.Read(p)] for the reader [r] that [init] hands to [c.br], with
      [teeReader.Read] of Go's [io] package: the bytes the caller may
      use ([p[:n]]) and the error. *)
Definition srcRead (r : RSrc) : (list Byte.byte * option Err) * list Event :=
    match r with
    | RStream s => (ro (EStream s), [EvRead (EStream s)])
    | RTee s k =>
        let '(data, err) := ro (EStream s) in
        if bool_decide (0 < length data) then
          let '(n, werr) := wo (ESink k) data in
          match werr with
          | Some e => ((take n data, Some e), [EvRead (EStream s); EvWrite (ESink k) data])
          | None => ((data, err), [EvRead (EStream s); EvWrite (ESink k) data])
          end
        else ((data, err), [EvRead (EStream s)])
    end.
End Io.

End Imap.

(* ================================================================== *)
(** ** Notions used to state properties *)

Module Props.
Import Responses Imap.

(** Index of the first occurrence of [x] in [l] ([length l] if absent). *)
Fixpoint pos (x : string) (l : list string) : nat :=
  match l with
  | [] => 0
  | y :: l' => if bool_decide (x = y) then 0 else S (pos x l')
  end.

(** First occurrences of the elements of [l] not in [seen], in order. *)
Fixpoint firstOcc (seen : list string) (l : list string) : list string :=
  match l with
  | [] => []
  | x :: l' =>
      if bool_decide (x ∈ seen) then firstOcc seen l' else x :: firstOcc (x :: seen) l'
  end.

(** The [localDebug] / [remoteDebug] pair [init] computes for [c]. *)
Definition debugPair (c : Conn) : option nat * option nat :=
  match cDebug c with
  | None => (None, None)
  | Some d => fst (debugSinks (cConn c) d)
  end.

(** The [io.Writer] contract for the stream [s] on [p]: [n <= len(p)] and
    a non-nil error whenever [n < len(p)]. *)
Definition stream_contract (wo : Endpoint -> list Byte.byte -> nat * option Err)
    (s : nat) (p : list Byte.byte) : Prop :=
  let '(n, e) := wo (EStream s) p in n <= length p /\ (n < length p -> e <> None).

(** A sink that takes every write whole and without error. *)
Definition sink_accepts (wo : Endpoint -> list Byte.byte -> nat * option Err) (k : nat) : Prop :=
  forall q, wo (ESink k) q = (length q, None).

(** An event of the debug set-up: a call on a [WriterWithFields] or the
    assignment of [df.Writer]; no read, write, flush or upgrade. *)
Definition debug_call (ev : Event) : Prop :=
  match ev with
  | EvSetField _ _ _ | EvWriterCall _ | EvSetEmbedded _ => True
  | _ => False
  end.

(** The stream a buffered reader source or writer sink reads or writes. *)
Definition rsrc_stream (r : RSrc) : nat := match r with RStream s | RTee s _ => s end.
Definition wdst_stream (w : WDst) : nat := match w with WStream s | WMulti s _ => s end.

(** [c.br] and [c.bw] are non-nil and bound to the current stream. *)
Definition bound (c : Conn) : Prop :=
  match cBr c, cBw c with
  | Some r, Some w => rsrc_stream r = sid (cConn c) /\ wdst_stream w = sid (cConn c)
  | _, _ => False
  end.

(** Sample inputs: a stream that implements [flusher], a connection over
    it, a connection over a plain stream tapped by the debug writer 7, a
    flush that fails, and endpoints that accept every write. *)
Definition sampleStream : Stream := mkStream 0 true None None.
Definition sampleConn : Conn := fst (NewConn sampleStream).
Definition sampleTapped : Conn :=
  mkConn (mkStream 0 false None None) None None WFUnset None (Some (DPlain 7)).
Definition brokenFlush (_ : Flusher) : option Err := Some (ErrMsg "broken pipe").
Definition acceptAll (_ : Endpoint) (q : list Byte.byte) : nat * option Err := (length q, None).
Definition readOne (_ : Endpoint) : list Byte.byte * option Err := ([Byte.x61], None).
(** A stream that takes every write whole and a sink whose writes all fail. *)
Definition sinkFails (e : Endpoint) (q : list Byte.byte) : nat * option Err :=
  match e with
  | EStream _ => (length q, None)
  | ESink _ => (0, Some (ErrMsg "sink closed"))
  end.

End Props.

(* ================================================================== *)
(** ** Properties *)

Module Proofs.
Import Responses Imap Props.

(** ** Connection states *)

(** C9: [SelectedState]'s bits strictly contain [AuthenticatedState]'s,
    and [ConnectedState] is the bitwise union of [NotAuthenticatedState],
    [AuthenticatedState] and [SelectedState]. *)
Theorem connstate_bitmask :
  (forall i, Z.testbit AuthenticatedState i = true -> Z.testbit SelectedState i = true) /\
  SelectedState <> AuthenticatedState /\
  Z.land SelectedState AuthenticatedState = AuthenticatedState /\
  ConnectedState = Z.lor (Z.lor NotAuthenticatedState AuthenticatedState) SelectedState /\
  ConnectedState = 7%Z.
Proof.
  assert (Hland : Z.land SelectedState AuthenticatedState = AuthenticatedState)
    by reflexivity.
  split; [| split; [discriminate | split; [exact Hland | split; reflexivity]]].
  intros i Hi. rewrite <- Hland in Hi. rewrite Z.land_spec in Hi.
  apply andb_prop in Hi. tauto.
Qed.

(** ** Flush aggregation *)

(** C7: [multiFlusher.Flush] flushes the sinks in list order; it returns
    nil when all succeed, and otherwise the error of the first failing
    sink, after which no later sink is flushed. *)
Theorem multiFlush_first_error (fres : Flusher -> option Err) (fl : list Flusher) :
  (fst (multiFlush fres fl) = None /\ snd (multiFlush fres fl) = map EvFlush fl /\
   Forall (fun f => fres f = None) fl) \/
  (exists pre f post e,
     fl = pre ++ f :: post /\ Forall (fun g => fres g = None) pre /\
     fres f = Some e /\ fst (multiFlush fres fl) = Some e /\
     snd (multiFlush fres fl) = map EvFlush (pre ++ [f])).
Proof.
  induction fl as [| f fl IH]; simpl.
  - left. auto.
  - destruct (fres f) as [e |] eqn:Hf; simpl.
    + right. exists [], f, fl, e. auto.
    + destruct (multiFlush fres fl) as [res ev] eqn:Hm; simpl in *.
      destruct IH as [(-> & -> & Hall) | (pre & g & post & e & -> & Hpre & Hg & -> & ->)].
      * left. auto.
      * right. exists (f :: pre), g, post, e. simpl. auto.
Qed.

(** ** LIST response: name selection and [Handle] *)

(** C6: [Name] is LSUB when [Subscribed] is set and LIST otherwise;
    [Handle] claims (returns something other than [ErrUnhandled]) only
    lines named [Name r]; a line named as the other variant gives
    [ErrUnhandled] and leaves the handler and its channel untouched. *)
Theorem name_selection (r : List) :
  Name r = (if Subscribed r then "LSUB" else "LIST") /\
  (forall (Resp Field : Type) (parse : Resp -> option (string * list Field))
          (mbp : list Field -> MailboxInfo + string) (resp : Resp),
     fst (Handle parse mbp r resp) <> Some ErrUnhandled ->
     exists fields, parse resp = Some (Name r, fields)) /\
  (forall (Resp Field : Type) (parse : Resp -> option (string * list Field))
          (mbp : list Field -> MailboxInfo + string) (resp : Resp) fields,
     parse resp = Some (if Subscribed r then "LIST" else "LSUB", fields) ->
     Handle parse mbp r resp = (Some ErrUnhandled, r)).
Proof.
  split; [reflexivity | split].
  - intros Resp Field parse mbp resp H. unfold Handle in H.
    destruct (parse resp) as [[name fields] |]; [| contradiction].
    case_bool_decide; [subst; eauto | contradiction].
  - intros Resp Field parse mbp resp fields H. unfold Handle. rewrite H.
    rewrite bool_decide_false; [reflexivity |].
    unfold Name, listName, lsubName. destruct (Subscribed r); discriminate.
Qed.

(** C4: [Handle] has three outcomes: [ErrUnhandled] with the handler
    untouched; the parse error of a line carrying [Name r], with nothing
    sent; or nil, with exactly the parsed record appended to the channel. *)
Theorem handle_outcomes {Resp Field : Type} (parse : Resp -> option (string * list Field))
    (mbp : list Field -> MailboxInfo + string) (r : List) (resp : Resp) :
  Handle parse mbp r resp = (Some ErrUnhandled, r) \/
  (exists fields msg, parse resp = Some (Name r, fields) /\ mbp fields = inr msg /\
     Handle parse mbp r resp = (Some (ErrMsg msg), r)) \/
  (exists fields mbox, parse resp = Some (Name r, fields) /\ mbp fields = inl mbox /\
     Handle parse mbp r resp =
       (None, mkList (Mailboxes r ++ [mbox]) (Subscribed r) (SpecialUse r))).
Proof.
  unfold Handle.
  destruct (parse resp) as [[name fields] |] eqn:Hp; [| left; reflexivity].
  case_bool_decide as Hn; [subst name | left; reflexivity].
  right. destruct (mbp fields) as [mbox | msg] eqn:Hm.
  - right. exists fields, mbox. auto.
  - left. exists fields, msg. auto.
Qed.

(** ** Transport: flush and upgrade *)

Lemma writerFlush_events (fres : Flusher -> option Err) (wf : WField) :
  Forall (fun ev => exists f, ev = EvFlush f) (snd (writerFlush fres wf)).
Proof.
  destruct wf as [| | fl]; simpl; eauto.
  induction fl as [| f fl IH]; simpl; [constructor |].
  destruct (fres f); simpl; [eauto |].
  destruct (multiFlush fres fl) as [res ev]; simpl in *. eauto.
Qed.

Lemma Flush_unfold (fres : Flusher -> option Err) (c : Conn) :
  Flush fres c = writerFlush fres (cWriter c).
Proof.
  unfold Flush. destruct (writerFlush fres (cWriter c)) as [[e |] ev]; reflexivity.
Qed.

(** C10: when the flush of pending output fails, [Upgrade] returns that
    error with the connection exactly as it was (stream, buffers, writer
    field, [waits] channel), having done nothing but that flush: the
    upgrader is not called and [Wait] blocks no more than before. *)
Theorem upgrade_flush_error (fres : Flusher -> option Err)
    (upgrader : Stream -> Stream + Err) (c : Conn) (e : Err) :
  fst (Flush fres c) = Some e ->
  Upgrade fres upgrader c = (Some e, c, snd (Flush fres c)) /\
  (forall s, ~ In (EvUpgrader s) (snd (Flush fres c))) /\
  Wait_blocks (snd (fst (Upgrade fres upgrader c))) = Wait_blocks c.
Proof.
  intros Hf.
  assert (Hu : Upgrade fres upgrader c = (Some e, c, snd (Flush fres c))).
  { unfold Upgrade. destruct (Flush fres c) as [ferr fev]. simpl in Hf. subst ferr.
    reflexivity. }
  split; [exact Hu | split].
  - intros s Hin. rewrite Flush_unfold in Hin.
    pose proof (writerFlush_events fres (cWriter c)) as Hall.
    rewrite Forall_forall in Hall. rewrite <- list_elem_of_In in Hin.
    destruct (Hall _ Hin) as [f Hf'].
    discriminate.
  - rewrite Hu. reflexivity.
Qed.

(** C2: when the upgrader fails, [Upgrade] keeps the stream, the buffered
    reader and writer bindings and [c.Writer.Writer], so later writes and
    flushes reach the original stream; once the upgrader has been called
    (the pre-upgrade flush succeeded) its error is the one returned, and
    the [waits] channel is left closed. *)
Theorem upgrade_error_keeps_stream (fres : Flusher -> option Err)
    (upgrader : Stream -> Stream + Err) (c : Conn) (e : Err) :
  upgrader (cConn c) = inr e ->
  cConn (snd (fst (Upgrade fres upgrader c))) = cConn c /\
  cBr (snd (fst (Upgrade fres upgrader c))) = cBr c /\
  cBw (snd (fst (Upgrade fres upgrader c))) = cBw c /\
  cWriter (snd (fst (Upgrade fres upgrader c))) = cWriter c /\
  Flush fres (snd (fst (Upgrade fres upgrader c))) = Flush fres c /\
  (fst (Flush fres c) = None ->
   fst (fst (Upgrade fres upgrader c)) = Some e /\
   Wait_blocks (snd (fst (Upgrade fres upgrader c))) = false).
Proof.
  intros Hup. unfold Upgrade. rewrite Hup.
  destruct (Flush fres c) as [[ferr |] fev] eqn:Hf; simpl.
  - repeat split; try reflexivity; try exact Hf; discriminate.
  - rewrite Flush_unfold. rewrite Flush_unfold in Hf. exact (conj eq_refl (conj eq_refl (conj eq_refl (conj eq_refl (conj Hf (fun _ => conj eq_refl eq_refl)))))).
Qed.

(** C1 (evaluation at the failing input): a connection over a stream
    [sA] that implements [flusher], upgraded to a stream [sB] that does
    not. After the successful upgrade the buffered writer is bound to
    [sB], yet [Flush] still flushes [sA], the replaced stream, because
    [init] leaves [c.Writer.Writer] at the struct built for [sA]. *)
Theorem upgrade_keeps_replaced_stream_flusher :
  let sA := mkStream 0 true None None in
  let sB := mkStream 1 false None None in
  let c0 := fst (NewConn sA) in
  let up := Upgrade (fun _ => None) (fun _ => inl sB) c0 in
  fst (fst up) = None /\ cConn (snd (fst up)) = sB /\
  cBw (snd (fst up)) = Some (WStream 1) /\ cBr (snd (fst up)) = Some (RStream 1) /\
  Flush (fun _ => None) (snd (fst up)) = (None, [EvFlush FBuf; EvFlush (FStream 0)]).
Proof. vm_compute. repeat split. Qed.

(** ** LIST response: intersection and filtering *)

Lemma hash_mget (l : list string) (h : gmap string bool) (x : string) :
  mget (foldl (fun h e => <[e := true]> h) h l) x = mget h x || bool_decide (x ∈ l).
Proof.
  revert h. induction l as [| e l IH]; intros h; simpl.
  - by destruct (mget h x).
  - rewrite IH. unfold mget. destruct (decide (x = e)) as [-> | Hne].
    + rewrite lookup_insert_eq. rewrite (bool_decide_true (e ∈ e :: l)); [| set_solver].
      destruct (h !! e) as [[] |]; reflexivity.
    + rewrite lookup_insert_ne by congruence.
      apply f_equal. apply bool_decide_ext. set_solver.
Qed.

Lemma collect_filter (f : string -> bool) (l acc : list string) :
  foldl (fun acc e => if f e then acc ++ [e] else acc) acc l = acc ++ List.filter f l.
Proof.
  revert acc. induction l as [| e l IH]; intros acc; simpl.
  - by rewrite app_nil_r.
  - destruct (f e); rewrite IH; [by rewrite <- app_assoc | reflexivity].
Qed.

Lemma firstOcc_ext (l s1 s2 : list string) :
  (forall y, y ∈ s1 <-> y ∈ s2) -> firstOcc s1 l = firstOcc s2 l.
Proof.
  revert s1 s2. induction l as [| x l IH]; intros s1 s2 Hs; simpl; [reflexivity |].
  rewrite (bool_decide_ext (x ∈ s1) (x ∈ s2)) by apply Hs.
  case_bool_decide; [by apply IH |].
  f_equal. apply IH. intros y. rewrite !elem_of_cons. specialize (Hs y). tauto.
Qed.

Lemma removeDups_fold (l acc : list string) (enc : gmap string bool) :
  (forall x, mget enc x = bool_decide (x ∈ acc)) ->
  fst (foldl removeDups_step (acc, enc) l) = acc ++ firstOcc acc l.
Proof.
  revert acc enc. induction l as [| e l IH]; intros acc enc Henc; simpl.
  - by rewrite app_nil_r.
  - rewrite Henc. case_bool_decide as He; simpl.
    + by apply IH.
    + rewrite IH.
      * rewrite <- app_assoc. simpl. f_equal. f_equal.
        apply firstOcc_ext. set_solver.
      * intros y. unfold mget. destruct (decide (y = e)) as [-> | Hne].
        -- rewrite lookup_insert_eq. symmetry. apply bool_decide_true. set_solver.
        -- rewrite lookup_insert_ne by congruence. fold (mget enc y). rewrite Henc.
           apply bool_decide_ext. set_solver.
Qed.

Lemma removeDups_firstOcc (l : list string) : removeDups l = firstOcc [] l.
Proof.
  unfold removeDups. rewrite removeDups_fold; [reflexivity |].
  symmetry. apply bool_decide_false. set_solver.
Qed.

Lemma intersection_spec (s1 s2 : list string) :
  intersection s1 s2 = firstOcc [] (List.filter (fun e => bool_decide (e ∈ s1)) s2).
Proof.
  unfold intersection. rewrite removeDups_firstOcc. f_equal.
  rewrite (collect_filter _ s2 []). simpl. apply List.filter_ext. intros e.
  rewrite hash_mget. unfold mget. rewrite lookup_empty. reflexivity.
Qed.

Lemma firstOcc_nodup_elem (l seen : list string) :
  NoDup (firstOcc seen l) /\ (forall x, x ∈ firstOcc seen l <-> x ∈ l /\ x ∉ seen).
Proof.
  revert seen. induction l as [| e l IH]; intros seen; simpl.
  - split; [constructor | set_solver].
  - case_bool_decide as He.
    + destruct (IH seen) as [Hn Hm]. split; [exact Hn |].
      intros x. rewrite Hm, elem_of_cons. split; [tauto |].
      intros [[-> | Hx] Hs]; [contradiction | tauto].
    + destruct (IH (e :: seen)) as [Hn Hm]. split.
      * constructor; [| exact Hn]. rewrite Hm. set_solver.
      * intros x. rewrite elem_of_cons, Hm, !elem_of_cons.
        destruct (decide (x = e)); [subst; tauto | tauto].
Qed.

Lemma StronglySorted_weaken {A : Type} (R R' : A -> A -> Prop) (l : list A) :
  StronglySorted R l -> (forall x y, x ∈ l -> y ∈ l -> R x y -> R' x y) ->
  StronglySorted R' l.
Proof.
  induction 1 as [| a l Hs IH Hf]; intros HR; constructor.
  - apply IH. intros x y Hx Hy. apply HR; by apply elem_of_cons; right.
  - rewrite Forall_forall in Hf |- *. intros y Hy. apply HR; [by left | by right |].
    by apply Hf.
Qed.

Lemma firstOcc_sorted (l seen : list string) :
  StronglySorted (fun x y => pos x l < pos y l) (firstOcc seen l).
Proof.
  revert seen. induction l as [| z l IH]; intros seen; simpl; [constructor |].
  case_bool_decide as Hz.
  - apply (StronglySorted_weaken _ _ _ (IH seen)). intros x y Hx Hy Hxy.
    apply firstOcc_nodup_elem in Hx, Hy.
    rewrite !bool_decide_false by (intros ->; tauto). lia.
  - constructor.
    + apply (StronglySorted_weaken _ _ _ (IH (z :: seen))). intros x y Hx Hy Hxy.
      apply firstOcc_nodup_elem in Hx, Hy.
      rewrite !bool_decide_false by (intros ->; set_solver). lia.
    + rewrite Forall_forall. intros y Hy. apply firstOcc_nodup_elem in Hy.
      rewrite (bool_decide_false (y = z)) by (intros ->; set_solver).
      rewrite bool_decide_true by reflexivity. lia.
Qed.

Lemma pos_filter (f : string -> bool) (l : list string) (x y : string) :
  x ∈ List.filter f l -> y ∈ List.filter f l ->
  pos x (List.filter f l) < pos y (List.filter f l) -> pos x l < pos y l.
Proof.
  induction l as [| z l IH]; simpl; [intros; lia |].
  destruct (f z) eqn:Hfz; intros Hx Hy Hlt.
  - simpl in Hlt. destruct (decide (x = z)) as [-> | Hxz].
    + rewrite bool_decide_true in Hlt |- * by reflexivity.
      destruct (decide (y = z)) as [-> | Hyz].
      * rewrite bool_decide_true in Hlt by reflexivity. lia.
      * rewrite bool_decide_false by exact Hyz. lia.
    + rewrite (bool_decide_false (x = z)) in Hlt |- * by exact Hxz.
      destruct (decide (y = z)) as [-> | Hyz].
      * rewrite bool_decide_true in Hlt by reflexivity. lia.
      * rewrite (bool_decide_false (y = z)) in Hlt |- * by exact Hyz.
        apply elem_of_cons in Hx as [? | Hx]; [contradiction |].
        apply elem_of_cons in Hy as [? | Hy]; [contradiction |].
        enough (pos x l < pos y l) by lia. apply IH; auto. lia.
  - assert (Hne : forall w, w ∈ List.filter f l -> w <> z).
    { intros w Hw ->. rewrite list_elem_of_In, List.filter_In in Hw.
      destruct Hw as [_ Hw]. congruence. }
    rewrite (bool_decide_false (x = z)), (bool_decide_false (y = z)) by auto.
    enough (pos x l < pos y l) by lia. auto.
Qed.

(** [WriteTo] with a writer that never fails: one line per record that
    passes the filter, in receive order. *)
Lemma WriteTo_loop_ok {Line : Type} (Format : MailboxInfo -> Line) (r : List)
    (respName : string) (mbs : list MailboxInfo) :
  WriteTo_loop Format (fun _ _ => None) r respName mbs =
  (None, map (fun m => (respName, Format m)) (List.filter (fun m => negb (skipped r m)) mbs)).
Proof.
  induction mbs as [| m mbs IH]; simpl; [reflexivity |].
  destruct (skipped r m); simpl; [exact IH |]. by rewrite IH.
Qed.

Lemma intersection_elem (s1 s2 : list string) (x : string) :
  x ∈ intersection s1 s2 <-> x ∈ s1 /\ x ∈ s2.
Proof.
  rewrite intersection_spec. rewrite (proj2 (firstOcc_nodup_elem _ [])).
  rewrite list_elem_of_In, List.filter_In, bool_decide_eq_true, <- list_elem_of_In.
  set_solver.
Qed.

Lemma intersection_nil_iff (s1 s2 : list string) :
  intersection s1 s2 = [] <-> (forall x, x ∈ s1 -> x ∉ s2).
Proof.
  split.
  - intros H x H1 H2.
    assert (Hx : x ∈ intersection s1 s2) by (apply intersection_elem; auto).
    rewrite H in Hx. set_solver.
  - intros H. destruct (intersection s1 s2) as [| y l] eqn:E; [reflexivity |].
    exfalso. assert (Hy : y ∈ intersection s1 s2) by (rewrite E; left).
    apply intersection_elem in Hy as [Hy1 Hy2]. exact (H y Hy1 Hy2).
Qed.

(** C3 (amended): [intersection s1 s2] has no duplicates, holds exactly
    the elements common to [s1] and [s2], and lists them in the order of
    their first occurrence in the second argument [s2] (the side that is
    scanned); whether [WriteTo] skips a record depends only on the set of
    its attributes, so a repeated token counts once; and with a writer
    that never fails [WriteTo] hands one line per record that passes the
    filter, in receive order, so no line is repeated. *)
Theorem intersection_set_semantics (s1 s2 : list string) :
  NoDup (intersection s1 s2) /\
  (forall x, x ∈ intersection s1 s2 <-> x ∈ s1 /\ x ∈ s2) /\
  StronglySorted (fun x y => pos x s2 < pos y s2) (intersection s1 s2) /\
  (forall (r : List) (m m' : MailboxInfo),
     (forall x, x ∈ Attributes m <-> x ∈ Attributes m') -> skipped r m = skipped r m') /\
  (forall (Line : Type) (Format : MailboxInfo -> Line) (r : List) (mbs : list MailboxInfo),
     WriteTo Format (fun _ _ => None) (mkList mbs (Subscribed r) (SpecialUse r)) =
     (None, map (fun m => (Name r, Format m))
                (List.filter (fun m => negb (skipped r m)) mbs))).
Proof.
  split; [| split; [| split; [| split]]].
  - rewrite intersection_spec. apply firstOcc_nodup_elem.
  - apply intersection_elem.
  - rewrite intersection_spec.
    apply (StronglySorted_weaken _ _ _ (firstOcc_sorted _ [])).
    intros x y Hx Hy Hxy.
    apply firstOcc_nodup_elem in Hx as [Hx _], Hy as [Hy _].
    by apply (pos_filter (fun e => bool_decide (e ∈ s1))).
  - intros r m m' Hm. unfold skipped. f_equal. apply bool_decide_ext.
    rewrite !length_zero_iff_nil, !intersection_nil_iff. setoid_rewrite Hm. reflexivity.
  - intros Line Format r mbs. unfold WriteTo. simpl.
    rewrite WriteTo_loop_ok. unfold Name, skipped. simpl. reflexivity.
Qed.

(** C3 (counterexample): the intersection is not in the order of its
    first argument. With the attributes [\Sent; \Archive] of a mailbox,
    [intersection attrs specialuse] is [\Archive; \Sent]: the order of
    [specialuse], the second argument. *)
Lemma intersection_not_in_first_argument_order :
  ~ (forall s1 s2 : list string,
       StronglySorted (fun x y => pos x s1 < pos y s1) (intersection s1 s2)).
Proof.
  intros H. specialize (H ["\Sent"; "\Archive"] specialuse).
  assert (Hi : intersection ["\Sent"; "\Archive"] specialuse = ["\Archive"; "\Sent"])
    by (vm_compute; reflexivity).
  rewrite Hi in H. apply StronglySorted_inv in H as [_ Hf].
  apply Forall_inv in Hf. vm_compute in Hf. lia.
Qed.

(** C5: the four records with attributes [{}], [{\Archive}],
    [{\Noselect}] and [{\Sent, \Noselect}], drained by [WriteTo] with a
    writer that never fails: with special-use filtering on, exactly the
    second and fourth give a line; with it off, all four do; in receive
    order, one line per record at most. *)
Theorem specialuse_filter_example {Line : Type} (Format : MailboxInfo -> Line)
    (sub : bool) (d1 n1 d2 n2 d3 n3 d4 n4 : string) :
  let m1 := mkMailboxInfo [] d1 n1 in
  let m2 := mkMailboxInfo ["\Archive"] d2 n2 in
  let m3 := mkMailboxInfo ["\Noselect"] d3 n3 in
  let m4 := mkMailboxInfo ["\Sent"; "\Noselect"] d4 n4 in
  let nm := Name (mkList [] sub false) in
  WriteTo Format (fun _ _ => None) (mkList [m1; m2; m3; m4] sub true) =
    (None, [(nm, Format m2); (nm, Format m4)]) /\
  WriteTo Format (fun _ _ => None) (mkList [m1; m2; m3; m4] sub false) =
    (None, [(nm, Format m1); (nm, Format m2); (nm, Format m3); (nm, Format m4)]).
Proof.
  intros m1 m2 m3 m4 nm. unfold WriteTo. rewrite !WriteTo_loop_ok.
  split; vm_compute; reflexivity.
Qed.

(** ** Debug taps *)

Lemma init_bindings (c : Conn) :
  cBr (fst (init c)) = Some (fst (fst (tapWiring c))) /\
  cBw (fst (init c)) = Some (snd (fst (tapWiring c))).
Proof. unfold init. destruct (tapWiring c) as [[r w] ev]. split; reflexivity. Qed.

(** C8 (counterexample): a tap whose sink fails changes what a write
    returns. Over stream 0 with [c.debug] a plain writer 7 whose [Write]
    fails, writing one byte through the tapped writer gives [(0, err)]
    although the stream took the byte, where the untapped writer gives
    [(1, nil)]. *)
Lemma tap_changes_write_result_on_sink_failure :
  ~ (forall (wo : Endpoint -> list Byte.byte -> nat * option Err) (c : Conn)
            (p : list Byte.byte) (w1 w0 : WDst),
       stream_contract wo (sid (cConn c)) p ->
       cBw (fst (init c)) = Some w1 ->
       cBw (fst (init (set_cDebug None c))) = Some w0 ->
       fst (dstWrite wo w1 p) = fst (dstWrite wo w0 p)).
Proof.
  intros H.
  specialize (H (fun e q => match e with
                            | EStream _ => (length q, None)
                            | ESink _ => (0, Some (ErrMsg "sink closed"))
                            end)
                (mkConn (mkStream 0 false None None) None None WFUnset None (Some (DPlain 7)))
                [Byte.x61] (WMulti 0 7) (WStream 0)).
  unfold stream_contract in H. simpl in H.
  discriminate H; [lia | reflexivity | reflexivity].
Qed.

(** C8 (amended): when the stream honours the [io.Writer] contract and
    every configured sink takes each write whole and without error,
    wiring a tap in [init] changes neither what a write through the
    buffered writer's sink returns nor what a read through the buffered
    reader's source yields; the stream sees the same calls, and the only
    added effect is one copy of the bytes written to the configured sink.
    A side with no sink is wired exactly as without a tap. A sink that
    fails is not isolated: when the stream takes a write whole, the
    tapped write returns the sink's byte count and error
    ([io.MultiWriter]) where the untapped one returns [(len(p), nil)]; when
    a read yields data, the tapped read keeps only the sink's byte count
    of it and returns the sink's error ([io.TeeReader]) where the
    untapped one returns the stream's result. *)
Theorem tap_transparent_when_sinks_accept
    (wo : Endpoint -> list Byte.byte -> nat * option Err)
    (ro : Endpoint -> list Byte.byte * option Err) (c : Conn) (p : list Byte.byte) :
  (stream_contract wo (sid (cConn c)) p ->
   (forall k, fst (debugPair c) = Some k -> sink_accepts wo k) ->
   (forall k, snd (debugPair c) = Some k -> sink_accepts wo k) ->
   exists w1 w0 r1 r0,
    cBw (fst (init c)) = Some w1 /\ cBw (fst (init (set_cDebug None c))) = Some w0 /\
    cBr (fst (init c)) = Some r1 /\ cBr (fst (init (set_cDebug None c))) = Some r0 /\
    fst (dstWrite wo w1 p) = fst (dstWrite wo w0 p) /\
    (snd (dstWrite wo w1 p) = snd (dstWrite wo w0 p) \/
     exists k, fst (debugPair c) = Some k /\
       snd (dstWrite wo w1 p) = snd (dstWrite wo w0 p) ++ [EvWrite (ESink k) p]) /\
    (fst (debugPair c) = None -> w1 = w0) /\
    fst (srcRead wo ro r1) = fst (srcRead wo ro r0) /\
    (snd (srcRead wo ro r1) = snd (srcRead wo ro r0) \/
     exists k, snd (debugPair c) = Some k /\
       snd (srcRead wo ro r1) =
         snd (srcRead wo ro r0) ++ [EvWrite (ESink k) (fst (fst (srcRead wo ro r0)))]) /\
    (snd (debugPair c) = None -> r1 = r0)) /\
  (forall k m e, fst (debugPair c) = Some k ->
     wo (EStream (sid (cConn c))) p = (length p, None) -> wo (ESink k) p = (m, Some e) ->
     exists w1 w0,
       cBw (fst (init c)) = Some w1 /\ cBw (fst (init (set_cDebug None c))) = Some w0 /\
       dstWrite wo w1 p = ((m, Some e), [EvWrite (EStream (sid (cConn c))) p; EvWrite (ESink k) p]) /\
       fst (dstWrite wo w0 p) = (length p, None)) /\
  (forall k data err m e, snd (debugPair c) = Some k ->
     ro (EStream (sid (cConn c))) = (data, err) -> data <> [] -> wo (ESink k) data = (m, Some e) ->
     exists r1 r0,
       cBr (fst (init c)) = Some r1 /\ cBr (fst (init (set_cDebug None c))) = Some r0 /\
       fst (srcRead wo ro r1) = (take m data, Some e) /\
       fst (srcRead wo ro r0) = (data, err)).
Proof.
  split; [| split].
  2:{ intros k m e Hk Hst Hsk.
      destruct (init_bindings c) as [_ Hbw1].
      destruct (init_bindings (set_cDebug None c)) as [_ Hbw0].
      rewrite Hbw1, Hbw0. eexists _, _. split; [reflexivity | split; [reflexivity |]].
      unfold debugPair in Hk. unfold tapWiring. simpl.
      destruct (cDebug c) as [d |]; [| discriminate Hk].
      destruct (debugSinks (cConn c) d) as [[ld rd] ev]. simpl in Hk |- *. subst ld.
      simpl. rewrite Hst, Nat.eqb_refl. simpl. rewrite Hsk. split; reflexivity. }
  2:{ intros k data err m e Hk Hro Hne Hsk.
      destruct (init_bindings c) as [Hbr1 _].
      destruct (init_bindings (set_cDebug None c)) as [Hbr0 _].
      rewrite Hbr1, Hbr0. eexists _, _. split; [reflexivity | split; [reflexivity |]].
      unfold debugPair in Hk. unfold tapWiring. simpl.
      destruct (cDebug c) as [d |]; [| discriminate Hk].
      destruct (debugSinks (cConn c) d) as [[ld rd] ev]. simpl in Hk |- *. subst rd.
      simpl. rewrite Hro. rewrite bool_decide_true by (destruct data; [done | simpl; lia]).
      rewrite Hsk. split; reflexivity. }
  intros Hs Hl Hr.
  destruct (init_bindings c) as [Hbr1 Hbw1].
  destruct (init_bindings (set_cDebug None c)) as [Hbr0 Hbw0].
  rewrite Hbr1, Hbw1, Hbr0, Hbw0.
  eexists _, _, _, _. do 4 (split; [reflexivity |]).
  unfold debugPair in Hl, Hr |- *. unfold tapWiring. simpl.
  destruct (cDebug c) as [d |]; [| repeat split; auto].
  destruct (debugSinks (cConn c) d) as [[ld rd] ev]. simpl in *.
  set (s := sid (cConn c)) in *.
  assert (Hw : fst (dstWrite wo (match ld with Some k => WMulti s k | None => WStream s end) p) =
               fst (dstWrite wo (WStream s) p) /\
               (snd (dstWrite wo (match ld with Some k => WMulti s k | None => WStream s end) p) =
                snd (dstWrite wo (WStream s) p) \/
                exists k, ld = Some k /\
                  snd (dstWrite wo (match ld with Some k => WMulti s k | None => WStream s end) p) =
                  snd (dstWrite wo (WStream s) p) ++ [EvWrite (ESink k) p])).
  { destruct ld as [k |]; [| auto]. simpl.
    unfold stream_contract in Hs.
    destruct (wo (EStream s) p) as [n [e |]] eqn:Hws; [auto |].
    assert (n = length p) as -> by (destruct Hs as [Hle Hlt]; destruct (decide (n < length p));
                                    [exfalso; by apply Hlt | lia]).
    rewrite Nat.eqb_refl. simpl. rewrite (Hl k eq_refl p). simpl.
    rewrite Nat.eqb_refl. simpl.
    split; [reflexivity | right; eauto]. }
  assert (Hrd : fst (srcRead wo ro (match rd with Some k => RTee s k | None => RStream s end)) =
                fst (srcRead wo ro (RStream s)) /\
                (snd (srcRead wo ro (match rd with Some k => RTee s k | None => RStream s end)) =
                 snd (srcRead wo ro (RStream s)) \/
                 exists k, rd = Some k /\
                   snd (srcRead wo ro (match rd with Some k => RTee s k | None => RStream s end)) =
                   snd (srcRead wo ro (RStream s)) ++
                     [EvWrite (ESink k) (fst (fst (srcRead wo ro (RStream s))))])).
  { destruct rd as [k |]; [| auto]. simpl.
    destruct (ro (EStream s)) as [data err].
    case_bool_decide; [| auto].
    rewrite (Hr k eq_refl data). simpl. split; [reflexivity | right; eauto]. }
  destruct Hw as [Hw1 Hw2]. destruct Hrd as [Hr1 Hr2].
  split; [exact Hw1 | split; [exact Hw2 | split]].
  - intros ->. reflexivity.
  - split; [exact Hr1 | split; [exact Hr2 |]]. intros ->. reflexivity.
Qed.

(** ** Witnesses *)

Lemma name_selection_witness :
  (fun _ : unit => Some ("LIST", @nil unit)) tt = Some (if Subscribed (mkList [] true false) then "LIST" else "LSUB", []) /\
  Handle (fun _ : unit => Some ("LIST", @nil unit)) (fun _ => inr "bad")
    (mkList [] true false) tt = (Some ErrUnhandled, mkList [] true false).
Proof.
  split; [reflexivity |].
  apply (proj2 (proj2 (name_selection (mkList [] true false))) unit unit
           (fun _ => Some ("LIST", [])) (fun _ => inr "bad") tt []).
  reflexivity.
Defined.

Lemma upgrade_flush_error_witness :
  fst (Flush brokenFlush sampleConn) = Some (ErrMsg "broken pipe") /\
  Upgrade brokenFlush (fun s => inl s) sampleConn =
    (Some (ErrMsg "broken pipe"), sampleConn, snd (Flush brokenFlush sampleConn)).
Proof.
  split; [vm_compute; reflexivity |].
  refine (proj1 (upgrade_flush_error brokenFlush (fun s => inl s) sampleConn
                   (ErrMsg "broken pipe") _)).
  vm_compute. reflexivity.
Defined.

Lemma upgrade_error_keeps_stream_witness :
  (fun _ : Stream => @inr Stream Err (ErrMsg "handshake")) (cConn sampleConn) =
    inr (ErrMsg "handshake") /\
  cConn (snd (fst (Upgrade (fun _ => None) (fun _ => inr (ErrMsg "handshake")) sampleConn))) =
    cConn sampleConn.
Proof.
  split; [reflexivity |].
  refine (proj1 (upgrade_error_keeps_stream (fun _ => None) (fun _ => inr (ErrMsg "handshake"))
                   sampleConn (ErrMsg "handshake") _)).
  reflexivity.
Defined.

Lemma intersection_set_semantics_witness :
  (forall x, x ∈ ["\Sent"; "\Sent"] <-> x ∈ ["\Sent"]) /\
  skipped (mkList [] false true) (mkMailboxInfo ["\Sent"; "\Sent"] "/" "Sent") =
    skipped (mkList [] false true) (mkMailboxInfo ["\Sent"] "/" "Sent").
Proof.
  assert (H : forall x, x ∈ ["\Sent"; "\Sent"] <-> x ∈ ["\Sent"]) by set_solver.
  split; [exact H |].
  exact (proj1 (proj2 (proj2 (proj2 (intersection_set_semantics [] []))))
           (mkList [] false true) (mkMailboxInfo ["\Sent"; "\Sent"] "/" "Sent")
           (mkMailboxInfo ["\Sent"] "/" "Sent") H).
Defined.

Lemma tap_transparent_when_sinks_accept_witness :
  (stream_contract acceptAll (sid (cConn sampleTapped)) [Byte.x61] /\
  (forall k, fst (debugPair sampleTapped) = Some k -> sink_accepts acceptAll k) /\
  (forall k, snd (debugPair sampleTapped) = Some k -> sink_accepts acceptAll k) /\
  exists w1 w0 r1 r0,
    cBw (fst (init sampleTapped)) = Some w1 /\
    cBw (fst (init (set_cDebug None sampleTapped))) = Some w0 /\
    cBr (fst (init sampleTapped)) = Some r1 /\
    cBr (fst (init (set_cDebug None sampleTapped))) = Some r0 /\
    fst (dstWrite acceptAll w1 [Byte.x61]) = fst (dstWrite acceptAll w0 [Byte.x61]) /\
    (snd (dstWrite acceptAll w1 [Byte.x61]) = snd (dstWrite acceptAll w0 [Byte.x61]) \/
     exists k, fst (debugPair sampleTapped) = Some k /\
       snd (dstWrite acceptAll w1 [Byte.x61]) =
         snd (dstWrite acceptAll w0 [Byte.x61]) ++ [EvWrite (ESink k) [Byte.x61]]) /\
    (fst (debugPair sampleTapped) = None -> w1 = w0) /\
    fst (srcRead acceptAll readOne r1) = fst (srcRead acceptAll readOne r0) /\
    (snd (srcRead acceptAll readOne r1) = snd (srcRead acceptAll readOne r0) \/
     exists k, snd (debugPair sampleTapped) = Some k /\
       snd (srcRead acceptAll readOne r1) =
         snd (srcRead acceptAll readOne r0) ++
           [EvWrite (ESink k) (fst (fst (srcRead acceptAll readOne r0)))]) /\
    (snd (debugPair sampleTapped) = None -> r1 = r0)) /\
  (fst (debugPair sampleTapped) = Some 7 /\
   sinkFails (EStream (sid (cConn sampleTapped))) [Byte.x61] = (1, None) /\
   sinkFails (ESink 7) [Byte.x61] = (0, Some (ErrMsg "sink closed")) /\
   exists w1, cBw (fst (init sampleTapped)) = Some w1 /\
     fst (dstWrite sinkFails w1 [Byte.x61]) = (0, Some (ErrMsg "sink closed"))) /\
  (snd (debugPair sampleTapped) = Some 7 /\
   readOne (EStream (sid (cConn sampleTapped))) = ([Byte.x61], None) /\
   sinkFails (ESink 7) [Byte.x61] = (0, Some (ErrMsg "sink closed")) /\
   exists r1, cBr (fst (init sampleTapped)) = Some r1 /\
     fst (srcRead sinkFails readOne r1) = ([], Some (ErrMsg "sink closed"))).
Proof.
  split; [| split].
  { assert (H1 : stream_contract acceptAll (sid (cConn sampleTapped)) [Byte.x61]).
    { vm_compute. split; [lia | intros H; lia]. }
    assert (H2 : forall k, fst (debugPair sampleTapped) = Some k -> sink_accepts acceptAll k).
    { intros k _ q. reflexivity. }
    assert (H3 : forall k, snd (debugPair sampleTapped) = Some k -> sink_accepts acceptAll k).
    { intros k _ q. reflexivity. }
    split; [exact H1 | split; [exact H2 | split; [exact H3 |]]].
    exact (proj1 (tap_transparent_when_sinks_accept acceptAll readOne sampleTapped [Byte.x61])
             H1 H2 H3). }
  { assert (Hk : fst (debugPair sampleTapped) = Some 7) by reflexivity.
    assert (Hst : sinkFails (EStream (sid (cConn sampleTapped))) [Byte.x61] = (1, None))
      by reflexivity.
    assert (Hsk : sinkFails (ESink 7) [Byte.x61] = (0, Some (ErrMsg "sink closed")))
      by reflexivity.
    split; [exact Hk | split; [exact Hst | split; [exact Hsk |]]].
    destruct (proj1 (proj2 (tap_transparent_when_sinks_accept sinkFails readOne sampleTapped
                              [Byte.x61])) 7 0 (ErrMsg "sink closed") Hk Hst Hsk)
      as [w1 [w0 [Hw1 [_ [Hw _]]]]].
    exists w1. split; [exact Hw1 | rewrite Hw; reflexivity]. }
  { assert (Hk : snd (debugPair sampleTapped) = Some 7) by reflexivity.
    assert (Hro : readOne (EStream (sid (cConn sampleTapped))) = ([Byte.x61], None))
      by reflexivity.
    assert (Hsk : sinkFails (ESink 7) [Byte.x61] = (0, Some (ErrMsg "sink closed")))
      by reflexivity.
    split; [exact Hk | split; [exact Hro | split; [exact Hsk |]]].
    destruct (proj2 (proj2 (tap_transparent_when_sinks_accept sinkFails readOne sampleTapped
                              [Byte.x61])) 7 [Byte.x61] None 0 (ErrMsg "sink closed")
                Hk Hro ltac:(discriminate) Hsk)
      as [r1 [r0 [Hr1 [_ [Hr _]]]]].
    exists r1. split; [exact Hr1 | exact Hr]. }
Defined.

End Proofs.

(* ================================================================== *)
(** ** Further properties of the code *)

Module Extras.
Import Responses Imap Props Proofs.

(** ** [removeDups] and [intersection] *)

Lemma firstOcc_nodup_id (l seen : list string) :
  NoDup l -> (forall x, x ∈ l -> x ∉ seen) -> firstOcc seen l = l.
Proof.
  revert seen. induction l as [| x l IH]; intros seen Hnd Hs; simpl; [reflexivity |].
  apply NoDup_cons in Hnd as [Hx Hnd].
  rewrite bool_decide_false by (apply Hs; left).
  f_equal. apply IH; [exact Hnd |].
  intros y Hy. rewrite elem_of_cons. intros [-> | Hys]; [contradiction |].
  apply (Hs y); [by right | exact Hys].
Qed.

(** [removeDups] keeps the first occurrence of each element, in order:
    its result has no duplicates, has the same elements as its input,
    is ordered by first occurrence in the input, and is the input itself
    when the input has no duplicates. *)
Theorem removeDups_first_occurrences (l : list string) :
  NoDup (removeDups l) /\
  (forall x, x ∈ removeDups l <-> x ∈ l) /\
  StronglySorted (fun x y => pos x l < pos y l) (removeDups l) /\
  (NoDup l -> removeDups l = l).
Proof.
  rewrite removeDups_firstOcc.
  destruct (firstOcc_nodup_elem l []) as [Hnd Hm].
  split; [exact Hnd | split; [| split]].
  - intros x. rewrite Hm. set_solver.
  - apply firstOcc_sorted.
  - intros Hl. apply firstOcc_nodup_id; [exact Hl | set_solver].
Qed.

Lemma filter_all_true (f : string -> bool) (l : list string) :
  (forall x, x ∈ l -> f x = true) -> List.filter f l = l.
Proof.
  induction l as [| x l IH]; intros H; simpl; [reflexivity |].
  rewrite (H x) by left. f_equal. apply IH. intros y Hy. apply H. by right.
Qed.

(** [intersection] with an empty side is empty, and the intersection of
    a list with itself is that list without its repeats. *)
Theorem intersection_edges (s1 s2 s : list string) :
  intersection [] s2 = [] /\ intersection s1 [] = [] /\
  intersection s s = removeDups s.
Proof.
  split; [| split].
  - rewrite intersection_spec.
    rewrite (List.filter_ext _ (fun _ => false)); [| intros e; apply bool_decide_false; set_solver].
    by induction s2.
  - reflexivity.
  - rewrite intersection_spec, removeDups_firstOcc. f_equal.
    apply filter_all_true. intros x Hx. by apply bool_decide_true.
Qed.

(** The special-use filter of [WriteTo] skips a record exactly when
    filtering is on and none of its attributes is a special-use token. *)
Theorem skipped_iff_no_specialuse (r : List) (m : MailboxInfo) :
  skipped r m =
  SpecialUse r && forallb (fun a => negb (bool_decide (a ∈ specialuse))) (Attributes m).
Proof.
  unfold skipped. f_equal.
  destruct (forallb _ (Attributes m)) eqn:E.
  - apply bool_decide_true. apply length_zero_iff_nil, intersection_nil_iff.
    intros x Hx Hs. rewrite List.forallb_forall in E.
    rewrite list_elem_of_In in Hx. specialize (E x Hx).
    rewrite bool_decide_true in E by exact Hs. discriminate.
  - apply bool_decide_false. rewrite length_zero_iff_nil, intersection_nil_iff.
    intros H. apply Bool.not_true_iff_false in E. apply E.
    apply List.forallb_forall. intros x Hx. rewrite <- list_elem_of_In in Hx.
    rewrite bool_decide_false by (apply H; exact Hx). reflexivity.
Qed.

(** [WriteTo] writes the records that pass the filter, in receive order,
    one line each, until a write fails: it either writes them all and
    returns nil, or stops at the first failing line, returns its error
    and writes none of the later records. *)
Theorem WriteTo_loop_result {Line : Type} (Format : MailboxInfo -> Line)
    (writeResp : string -> Line -> option Err) (r : List) (respName : string)
    (mbs : list MailboxInfo) :
  (WriteTo_loop Format writeResp r respName mbs =
     (None, map (fun m => (respName, Format m)) (List.filter (fun m => negb (skipped r m)) mbs)) /\
   Forall (fun m => writeResp respName (Format m) = None)
     (List.filter (fun m => negb (skipped r m)) mbs)) \/
  (exists pre m post e,
     List.filter (fun m => negb (skipped r m)) mbs = pre ++ m :: post /\
     Forall (fun m => writeResp respName (Format m) = None) pre /\
     writeResp respName (Format m) = Some e /\
     WriteTo_loop Format writeResp r respName mbs =
       (Some e, map (fun m => (respName, Format m)) (pre ++ [m]))).
Proof.
  induction mbs as [| m mbs IH]; simpl; [left; auto |].
  destruct (skipped r m); simpl; [exact IH |].
  destruct (writeResp respName (Format m)) as [e |] eqn:Hw.
  - right. exists [], m, (List.filter (fun m => negb (skipped r m)) mbs), e. auto.
  - destruct (WriteTo_loop Format writeResp r respName mbs) as [res out].
    destruct IH as [[Heq Hall] | (pre & m' & post & e & Hk & Hpre & Hm' & Heq)];
      injection Heq as -> ->.
    + left. auto.
    + right. exists (m :: pre), m', post, e. rewrite Hk. simpl. auto.
Qed.

(** [Handle] keeps the handler's configuration and only ever appends to
    its channel: at most one record, and one exactly when it returns nil. *)
Theorem Handle_appends {Resp Field : Type} (parse : Resp -> option (string * list Field))
    (mbp : list Field -> MailboxInfo + string) (r : List) (resp : Resp) :
  Subscribed (snd (Handle parse mbp r resp)) = Subscribed r /\
  SpecialUse (snd (Handle parse mbp r resp)) = SpecialUse r /\
  exists added, Mailboxes (snd (Handle parse mbp r resp)) = Mailboxes r ++ added /\
    length added <= 1 /\
    (fst (Handle parse mbp r resp) = None <-> length added = 1).
Proof.
  unfold Handle.
  destruct (parse resp) as [[name fields] |];
    [| split; [| split]; [reflexivity | reflexivity | exists []; rewrite app_nil_r;
                          split; [reflexivity | split; [simpl; lia | split; discriminate]]]].
  case_bool_decide;
    [| split; [| split]; [reflexivity | reflexivity | exists []; rewrite app_nil_r;
                          split; [reflexivity | split; [simpl; lia | split; discriminate]]]].
  destruct (mbp fields) as [mbox | msg]; simpl.
  - split; [| split]; [reflexivity | reflexivity |].
    exists [mbox]. split; [reflexivity | split; [simpl; lia | split; reflexivity]].
  - split; [| split]; [reflexivity | reflexivity |].
    exists []. rewrite app_nil_r. split; [reflexivity | split; [simpl; lia | split; discriminate]].
Qed.

(** ** Connection transport *)

Lemma init_fields (c : Conn) :
  cConn (fst (init c)) = cConn c /\ cWaits (fst (init c)) = cWaits c /\
  cDebug (fst (init c)) = cDebug c.
Proof. unfold init. destruct (tapWiring c) as [[r w] ev]. auto. Qed.

(** Re-running [init] on an initialised connection changes nothing of
    its state: the buffer bindings and the resolved [c.Writer.Writer] are
    those the first run chose. *)
Theorem init_idempotent (c : Conn) : fst (init (fst (init c))) = fst (init c).
Proof.
  destruct c as [s br bw wf wt d]. unfold init, tapWiring. simpl.
  destruct d as [d |];
    [destruct (debugSinks s d) as [[ld rd] ev] eqn:E; simpl; rewrite E |]; simpl;
    destruct bw, (sflusher s); reflexivity.
Qed.

(** [SetDebug(nil)] after [SetDebug(d)] on a new connection gives back
    exactly the new connection's state: the tap is removed without loss
    of the stream binding or the flush strategy. *)
Theorem SetDebug_roundtrip (s : Stream) (d : Debug) :
  fst (SetDebug None (fst (SetDebug (Some d) (fst (NewConn s))))) = fst (NewConn s).
Proof.
  unfold SetDebug, NewConn, init, tapWiring, set_cDebug. simpl.
  destruct (debugSinks s d) as [[ld rd] ev]. simpl. destruct (sflusher s); reflexivity.
Qed.

(** [NewConn] binds the buffered reader and writer straight to the stream
    (no tap), leaves [Wait] non-blocking, makes no call on a sink, and
    resolves [Flush] to flushing [c.bw] and then, if the stream implements
    [flusher], the stream. *)
Theorem NewConn_state (s : Stream) (fres : Flusher -> option Err) :
  cConn (fst (NewConn s)) = s /\
  cBr (fst (NewConn s)) = Some (RStream (sid s)) /\
  cBw (fst (NewConn s)) = Some (WStream (sid s)) /\
  Wait_blocks (fst (NewConn s)) = false /\ snd (NewConn s) = [] /\
  Flush fres (fst (NewConn s)) =
    multiFlush fres (FBuf :: if sflusher s then [FStream (sid s)] else []).
Proof.
  unfold NewConn, init, tapWiring. simpl.
  repeat split; try reflexivity.
  rewrite Flush_unfold. simpl.
  destruct (sflusher s); simpl; [reflexivity |].
  destruct (fres FBuf); reflexivity.
Qed.

(** A successful [Upgrade] (pre-upgrade flush nil, upgrader returns [s'])
    returns nil and leaves the connection as [init] builds it over [s']
    with the same debug configuration and a closed [waits] channel; it
    flushes first, then calls the upgrader on the old stream, then makes
    [init]'s calls; and when [s'] implements [flusher], [Flush] then
    flushes [c.bw] and [s']. *)
Theorem Upgrade_success (fres : Flusher -> option Err) (up : Stream -> Stream + Err)
    (c : Conn) (s' : Stream) :
  fst (Flush fres c) = None -> up (cConn c) = inl s' ->
  fst (fst (Upgrade fres up c)) = None /\
  snd (fst (Upgrade fres up c)) = set_cWaits (Some GClosed) (fst (init (set_cConn s' c))) /\
  snd (Upgrade fres up c) =
    snd (Flush fres c) ++ [EvUpgrader (sid (cConn c))] ++ snd (init (set_cConn s' c)) /\
  cDebug (snd (fst (Upgrade fres up c))) = cDebug c /\
  (sflusher s' = true -> forall fres',
     Flush fres' (snd (fst (Upgrade fres up c))) = multiFlush fres' [FBuf; FStream (sid s')]).
Proof.
  intros Hf Hup. unfold Upgrade.
  destruct (Flush fres c) as [ferr fev] eqn:HF. simpl in Hf. subst ferr.
  rewrite Hup. simpl.
  assert (Hi : init (set_cConn s' (set_cWaits (Some GOpen) c)) =
               (set_cWaits (Some GOpen) (fst (init (set_cConn s' c))),
                snd (init (set_cConn s' c)))).
  { destruct c as [s br bw wf wt d]. unfold init, tapWiring. simpl.
    destruct d as [d |]; [destruct (debugSinks s' d) as [[ld rd] ev] |];
      destruct bw, (sflusher s'); reflexivity. }
  rewrite Hi. simpl.
  split; [reflexivity | split; [| split; [| split]]].
  - destruct (init (set_cConn s' c)) as [c2 iev]. reflexivity.
  - rewrite <- app_assoc. reflexivity.
  - destruct (init_fields (set_cConn s' c)) as (_ & _ & Hd). simpl. exact Hd.
  - intros Hs fres'. rewrite Flush_unfold.
    destruct c as [s br bw wf wt d]. unfold init, tapWiring. simpl.
    destruct d as [d |]; [destruct (debugSinks s' d) as [[ld rd] ev] |];
      simpl; rewrite Hs; reflexivity.
Qed.

(** [Wait] never blocks after [NewConn], and [Upgrade] and [SetDebug]
    keep it so: whatever the outcome, the [waits] channel an [Upgrade]
    opens is closed by the time it returns. *)
Theorem Wait_never_blocks_after (fres : Flusher -> option Err) (up : Stream -> Stream + Err)
    (d : option Debug) (s : Stream) (c : Conn) :
  Wait_blocks (fst (NewConn s)) = false /\
  (Wait_blocks c = false ->
   Wait_blocks (snd (fst (Upgrade fres up c))) = false /\
   Wait_blocks (fst (SetDebug d c)) = false).
Proof.
  split; [reflexivity |]. intros Hc. split.
  - unfold Upgrade. destruct (Flush fres c) as [[e |] fev]; [exact Hc |].
    destruct (up (cConn c)) as [s' | e]; [| reflexivity].
    destruct (init (set_cConn s' (set_cWaits (Some GOpen) c))) as [c2 iev]. reflexivity.
  - unfold SetDebug, Wait_blocks in *. destruct (init_fields (set_cDebug d c)) as (_ & Hw & _).
    rewrite Hw. exact Hc.
Qed.

Lemma init_bound (c : Conn) : bound (fst (init c)).
Proof.
  destruct c as [s br bw wf wt d]. unfold bound, init, tapWiring. simpl.
  destruct d as [d |]; [destruct (debugSinks s d) as [[[k |] [k' |]] ev] |]; simpl; auto.
Qed.

(** The buffered reader and writer are bound to the current stream after
    [NewConn], and [SetDebug] and [Upgrade] keep them so, whether the
    upgrade succeeds or fails. *)
Theorem buffers_bound_to_current_stream (fres : Flusher -> option Err)
    (up : Stream -> Stream + Err) (d : option Debug) (s : Stream) (c : Conn) :
  bound (fst (NewConn s)) /\
  (bound c -> bound (fst (SetDebug d c)) /\ bound (snd (fst (Upgrade fres up c)))).
Proof.
  split; [apply init_bound |]. intros Hc. split; [apply init_bound |].
  unfold Upgrade. destruct (Flush fres c) as [[e |] fev]; [exact Hc |].
  destruct (up (cConn c)) as [s' | e]; [| exact Hc].
  pose proof (init_bound (set_cConn s' (set_cWaits (Some GOpen) c))) as Hb.
  destruct (init (set_cConn s' (set_cWaits (Some GOpen) c))) as [c2 iev].
  exact Hb.
Qed.

(** [init] never reads, writes or flushes: every call it makes is on the
    sinks of a [debugWithFields] ([SetField], [Writer()]) or the
    assignment of [df.Writer], so a connection whose debug writer is nil,
    a plain writer or a [debugWriter] makes none. With a
    [debugWithFields], every non-nil sink has its [Writer()] called after
    it received the field "loc" (when the stream has a local address) and
    "rem" (when it has a remote address), and no [SetField] follows that
    call; [df.Writer] is assigned exactly when the local sink is non-nil,
    to that sink's [Writer()]. *)
Theorem init_only_configures_sinks (c : Conn) :
  Forall debug_call (snd (init c)) /\
  ((forall l r, cDebug c <> Some (DWithFields l r)) -> snd (init c) = []) /\
  (forall l r fs, cDebug c = Some (DWithFields l r) -> (l = Some fs \/ r = Some fs) ->
     exists pre post, snd (init c) = pre ++ EvWriterCall (fs_id fs) :: post /\
       (forall a, localAddr (cConn c) = Some a -> EvSetField (fs_id fs) "loc" a ∈ pre) /\
       (forall a, remoteAddr (cConn c) = Some a -> EvSetField (fs_id fs) "rem" a ∈ pre) /\
       Forall (fun ev => forall f k v, ev <> EvSetField f k v) post) /\
  (forall l r, cDebug c = Some (DWithFields l r) ->
     forall w, EvSetEmbedded w ∈ snd (init c) <-> exists fs, l = Some fs /\ w = fs_writer fs).
Proof.
  destruct c as [s br bw wf wt d]. unfold init, tapWiring. simpl.
  destruct d as [[w | l r | l r] |]; simpl.
  - split; [constructor | split; [reflexivity | split; intros ? ? ?; discriminate]].
  - split; [constructor | split; [reflexivity | split; intros ? ? ?; discriminate]].
  - split; [| split; [| split]].
    + unfold withField.
      destruct (localAddr s), (remoteAddr s), l, r; simpl; repeat constructor.
    + intros H. exfalso. exact (H l r eq_refl).
    + intros l' r' fs Hd Hfs. injection Hd as <- <-.
      destruct Hfs as [-> | ->].
      * eexists _, _. split; [rewrite app_assoc; reflexivity |].
        split; [| split]; [intros a Ha; rewrite Ha; unfold withField; set_solver ..|].
        destruct r; repeat constructor; intros; discriminate.
      * eexists _, _. split; [rewrite !app_assoc; reflexivity |].
        split; [| split]; [intros a Ha; rewrite Ha; unfold withField; set_solver ..|].
        constructor.
    + intros l' r' Hd w. injection Hd as <- <-. unfold withField.
      destruct (localAddr s), (remoteAddr s), l as [f |], r; simpl; split;
        try (intros [fs [Hf _]]; discriminate Hf);
        try (intros [fs [Hf ->]]; injection Hf as <-; apply list_elem_of_In; simpl; tauto);
        intros Hin; apply list_elem_of_In in Hin; simpl in Hin;
        repeat destruct Hin as [Hin | Hin]; try discriminate Hin; try contradiction;
        injection Hin as <-; eauto.
  - split; [constructor | split; [reflexivity | split; intros ? ? ?; discriminate]].
Qed.

(** Connection states: [NotAuthenticatedState], [AuthenticatedState] and
    [SelectedState] are contained in [ConnectedState], while
    [LogoutState] and [ConnectingState] share no bit with it. *)
Theorem connstate_membership :
  Z.land NotAuthenticatedState ConnectedState = NotAuthenticatedState /\
  Z.land AuthenticatedState ConnectedState = AuthenticatedState /\
  Z.land SelectedState ConnectedState = SelectedState /\
  Z.land LogoutState ConnectedState = 0%Z /\
  Z.land ConnectingState ConnectedState = 0%Z.
Proof. repeat split; reflexivity. Qed.

(** ** Witnesses *)

Lemma removeDups_first_occurrences_witness :
  NoDup ["\Sent"; "\Archive"] /\ removeDups ["\Sent"; "\Archive"] = ["\Sent"; "\Archive"].
Proof.
  assert (H : NoDup ["\Sent"; "\Archive"]) by (repeat constructor; set_solver).
  split; [exact H |].
  exact (proj2 (proj2 (proj2 (removeDups_first_occurrences ["\Sent"; "\Archive"]))) H).
Defined.

Lemma Upgrade_success_witness :
  fst (Flush (fun _ => None) sampleConn) = None /\
  (fun _ : Stream => @inl Stream Err (mkStream 1 true None None)) (cConn sampleConn) =
    inl (mkStream 1 true None None) /\
  fst (fst (Upgrade (fun _ => None) (fun _ => inl (mkStream 1 true None None)) sampleConn)) = None.
Proof.
  split; [vm_compute; reflexivity | split; [reflexivity |]].
  refine (proj1 (Upgrade_success (fun _ => None) (fun _ => inl (mkStream 1 true None None))
                   sampleConn (mkStream 1 true None None) _ _)); vm_compute; reflexivity.
Defined.

Lemma Wait_never_blocks_after_witness :
  Wait_blocks sampleConn = false /\
  Wait_blocks (snd (fst (Upgrade (fun _ => None) (fun s => inl s) sampleConn))) = false.
Proof.
  split; [vm_compute; reflexivity |].
  refine (proj1 (proj2 (Wait_never_blocks_after (fun _ => None) (fun s => inl s) None
                          sampleStream sampleConn) _)).
  vm_compute. reflexivity.
Defined.

Lemma buffers_bound_to_current_stream_witness :
  bound sampleConn /\
  bound (snd (fst (Upgrade (fun _ => None) (fun _ => inl (mkStream 1 false None None)) sampleConn))).
Proof.
  assert (H : bound sampleConn) by (vm_compute; split; reflexivity).
  split; [exact H |].
  exact (proj2 (proj2 (buffers_bound_to_current_stream (fun _ => None)
                         (fun _ => inl (mkStream 1 false None None)) None
                         sampleStream sampleConn) H)).
Defined.

Lemma init_only_configures_sinks_witness :
  cDebug (mkConn (mkStream 0 false (Some "10.0.0.1") None) None None WFUnset None
            (Some (DWithFields (Some (mkFieldSink 3 (Some 4))) None))) =
    Some (DWithFields (Some (mkFieldSink 3 (Some 4))) None) /\
  exists pre post,
    snd (init (mkConn (mkStream 0 false (Some "10.0.0.1") None) None None WFUnset None
                 (Some (DWithFields (Some (mkFieldSink 3 (Some 4))) None)))) =
      pre ++ EvWriterCall 3 :: post /\
    EvSetField 3 "loc" "10.0.0.1" ∈ pre.
Proof.
  split; [reflexivity |].
  destruct (proj1 (proj2 (proj2 (init_only_configures_sinks
           (mkConn (mkStream 0 false (Some "10.0.0.1") None) None None WFUnset None
              (Some (DWithFields (Some (mkFieldSink 3 (Some 4))) None))))))
           (Some (mkFieldSink 3 (Some 4))) None (mkFieldSink 3 (Some 4))
           eq_refl (or_introl eq_refl)) as [pre [post [Heq [Hloc _]]]].
  exists pre, post. split; [exact Heq | exact (Hloc "10.0.0.1" eq_refl)].
Defined.

End Extras.
